(** * Checklist execution state of [ChecklistsScreen]

    A shallow embedding of the state kept by the React component
    [ChecklistsScreen] (the checklist detail modal with its per-step
    countdown timer) and of the handlers that change it.

    The component keeps its state in [useState] cells; every handler is a
    function of the current cells that writes some of them.  Here the cells
    are the fields of the record [Screen] and every handler is a function
    [Screen -> Screen].  The one effect outside the cells, [Alert.alert], is
    modelled by the list of alerts a transition emits.

    JavaScript numbers are modelled by [Z] (step orders and seconds are
    integers in the data the screen receives) and [Set<number>] by
    [gset Z].  A JavaScript number holds every integer up to [2 ^ 53]
    exactly, and on these the arithmetic of the screen ([prev - 1],
    [seconds / 60], [seconds % 60], the decimal [toString]) is the exact
    integer arithmetic used here; above [2 ^ 53] it rounds ([1e16 - 1] is
    [1e16]), so every statement that rests on this arithmetic carries the
    bound [exactBound].

    The file also covers [formatTime], the time display of the timer, and
    the chart data [getBarChartData] and [getPieChartData] of
    [AnalyticsScreen].  Strings are sequences of characters, one for each
    code unit of the JavaScript string. *)

From Stdlib Require Import Ascii QArith Qround.
From stdpp Require Import base decidable numbers list gmap sets strings pretty.

Open Scope Z_scope.

(** ** Data, as declared by the interfaces of the screen *)

Record ChecklistStep := mkStep {
  order : Z;
  title : string;
  description : string;
  timer_seconds : option Z;        (* timer_seconds?: number *)
  is_safety : bool;
  safety_note : option string      (* safety_note?: string *)
}.

Record Checklist := mkChecklist {
  _id : string;
  name : string;
  device_type : string;
  repair_type : string;
  steps : list ChecklistStep;
  estimated_time_minutes : Z
}.

(** The arguments of one call of [Alert.alert(title, message)]. *)
Record AlertCall := mkAlert {
  alert_title : string;
  alert_message : string
}.

(** The [useState] cells of the screen that the checklist modal uses. *)
Record Screen := mkScreen {
  selectedChecklist : option Checklist;   (* Checklist | null *)
  completedSteps : gset Z;                (* Set<number> *)
  activeTimer : option Z;                 (* number | null *)
  timerValue : Z;
  timerRunning : bool
}.

(** The largest bound below which every integer is a JavaScript number and
    taking [1] off a positive one is exact. *)
Definition exactBound : Z := 2 ^ 53.

(** The initial values given to [useState]. *)
Definition initialScreen : Screen :=
  mkScreen None ∅ None 0 false.

(** ** The state setters *)

Definition setSelectedChecklist (c : option Checklist) (s : Screen) : Screen :=
  mkScreen c (completedSteps s) (activeTimer s) (timerValue s) (timerRunning s).

Definition setCompletedSteps (cs : gset Z) (s : Screen) : Screen :=
  mkScreen (selectedChecklist s) cs (activeTimer s) (timerValue s) (timerRunning s).

Definition setActiveTimer (a : option Z) (s : Screen) : Screen :=
  mkScreen (selectedChecklist s) (completedSteps s) a (timerValue s) (timerRunning s).

Definition setTimerValue (v : Z) (s : Screen) : Screen :=
  mkScreen (selectedChecklist s) (completedSteps s) (activeTimer s) v (timerRunning s).

Definition setTimerRunning (b : bool) (s : Screen) : Screen :=
  mkScreen (selectedChecklist s) (completedSteps s) (activeTimer s) (timerValue s) b.

(** ** The handlers *)

Definition openChecklist (checklist : Checklist) (s : Screen) : Screen :=
  setTimerRunning false
    (setTimerValue 0
      (setActiveTimer None
        (setCompletedSteps ∅
          (setSelectedChecklist (Some checklist) s)))).

Definition closeChecklist (s : Screen) : Screen :=
  setTimerRunning false
    (setTimerValue 0
      (setActiveTimer None
        (setCompletedSteps ∅
          (setSelectedChecklist None s)))).

(** [toggleStep] copies the set, deletes the order when the copy has it and
    adds it otherwise, and stores the copy.  The order is not compared with
    the steps of the selected checklist. *)
Definition toggleStep (stepOrder : Z) (s : Screen) : Screen :=
  let newCompleted := completedSteps s in
  let newCompleted :=
    if bool_decide (stepOrder ∈ newCompleted)
    then newCompleted ∖ {[stepOrder]}
    else newCompleted ∪ {[stepOrder]} in
  setCompletedSteps newCompleted s.

Definition startTimer (stepOrder seconds : Z) (s : Screen) : Screen :=
  setTimerRunning true
    (setTimerValue seconds
      (setActiveTimer (Some stepOrder) s)).

Definition stopTimer (s : Screen) : Screen :=
  setTimerRunning false s.

(** ** The countdown effect

    The effect with dependencies [timerRunning, timerValue] installs a
    one-second interval exactly when [timerRunning && timerValue > 0], and
    its cleanup clears it; so after every change of either cell the interval
    exists iff the condition holds in the new state. *)
Definition intervalInstalled (s : Screen) : bool :=
  timerRunning s && bool_decide (0 < timerValue s).

Definition timerCompleteAlert : AlertCall :=
  mkAlert "Timer Complete" "Step timer has finished!".

(** The interval callback: [setTimerValue] with the updater
    [prev => prev <= 1 ? (setTimerRunning(false), Alert.alert(..), 0)
                       : prev - 1].
    The subtraction is the exact one; it is the subtraction of the code for
    [prev ≤ exactBound]. *)
Definition intervalCallback (s : Screen) : Screen * list AlertCall :=
  let prev := timerValue s in
  if bool_decide (prev ≤ 1)
  then (setTimerValue 0 (setTimerRunning false s), [timerCompleteAlert])
  else (setTimerValue (prev - 1) s, []).

(** One second of the clock: the callback runs when the interval is
    installed, and nothing happens otherwise. *)
Definition tick (s : Screen) : Screen * list AlertCall :=
  if intervalInstalled s then intervalCallback s else (s, []).

(** [n] seconds of the clock, with the alerts in the order they were
    raised. *)
Fixpoint ticks (n : nat) (s : Screen) : Screen * list AlertCall :=
  match n with
  | O => (s, [])
  | S n' =>
      let '(s1, a1) := tick s in
      let '(s2, a2) := ticks n' s1 in
      (s2, a1 ++ a2)
  end.

(** ** What the modal renders *)

(** The set of the orders of the steps of a checklist. *)
Definition stepOrders (c : Checklist) : gset Z :=
  list_to_set (order <$> steps c).

(** [completedSteps.has(step.order)], the state of a step's checkbox. *)
Definition isComplete (stepOrder : Z) (s : Screen) : bool :=
  bool_decide (stepOrder ∈ completedSteps s).

(** The header text "{completedSteps.size} / {steps.length} completed". *)
Definition progressCount (s : Screen) : nat * option nat :=
  (size (completedSteps s),
   (fun c => length (steps c)) <$> selectedChecklist s).

(** The condition of the completion banner:
    [selectedChecklist && completedSteps.size === selectedChecklist.steps.length]. *)
Definition allStepsComplete (s : Screen) : bool :=
  match selectedChecklist s with
  | Some c => bool_decide (size (completedSteps s) = length (steps c))
  | None => false
  end.

(** [step.timer_seconds && ...]: the timer section of a step is rendered
    when [timer_seconds] is truthy, that is present and not zero. *)
Definition timerSectionShown (step : ChecklistStep) : bool :=
  match timer_seconds step with
  | Some t => negb (bool_decide (t = 0))
  | None => false
  end.

(** [step.timer_seconds!] where the timer section is rendered. *)
Definition declaredSeconds (step : ChecklistStep) : Z :=
  default 0 (timer_seconds step).

(** [timerValue || step.timer_seconds!] *)
Definition resumeSeconds (step : ChecklistStep) (s : Screen) : Z :=
  if bool_decide (timerValue s = 0) then declaredSeconds step else timerValue s.

(** [activeTimer === step.order] *)
Definition ownsTimer (stepOrder : Z) (s : Screen) : bool :=
  bool_decide (activeTimer s = Some stepOrder).

(** The press of a step's header: [() => toggleStep(step.order)]. *)
Definition pressStep (step : ChecklistStep) (s : Screen) : Screen :=
  toggleStep (order step) s.

(** The press of the button in a step's timer section.  The step that owns
    the timer shows a pause button while the timer runs and a play button
    otherwise; every other step shows its start button. *)
Definition pressTimer (step : ChecklistStep) (s : Screen) : Screen :=
  if timerSectionShown step then
    if ownsTimer (order step) s then
      if timerRunning s then stopTimer s
      else startTimer (order step) (resumeSeconds step s) s
    else startTimer (order step) (declaredSeconds step) s
  else s.

(** ** The events of a session

    What can happen to the screen: a card of the list is pressed, the close
    button, the header or the timer button of the [i]-th rendered step, and
    a second of the clock.  The modal renders the steps of the selected
    checklist only, so a press on a step that is not rendered does not
    exist. *)
Inductive Event :=
| EvOpen (c : Checklist)
| EvClose
| EvPressStep (i : nat)
| EvPressTimer (i : nat)
| EvTick.

Definition renderedStep (i : nat) (s : Screen) : option ChecklistStep :=
  c ← selectedChecklist s; steps c !! i.

Definition handle (e : Event) (s : Screen) : Screen * list AlertCall :=
  match e with
  | EvOpen c => (openChecklist c s, [])
  | EvClose => (closeChecklist s, [])
  | EvPressStep i =>
      match renderedStep i s with
      | Some step => (pressStep step s, [])
      | None => (s, [])
      end
  | EvPressTimer i =>
      match renderedStep i s with
      | Some step => (pressTimer step s, [])
      | None => (s, [])
      end
  | EvTick => tick s
  end.

Fixpoint run (es : list Event) (s : Screen) : Screen * list AlertCall :=
  match es with
  | [] => (s, [])
  | e :: es' =>
      let '(s1, a1) := handle e s in
      let '(s2, a2) := run es' s1 in
      (s2, a1 ++ a2)
  end.

(** ** Invariants of a session *)

(** Every completed order is the order of a step of the selected checklist;
    with no checklist selected nothing is completed. *)
Definition completedWithinDefinition (s : Screen) : Prop :=
  match selectedChecklist s with
  | Some c => completedSteps s ⊆ stepOrders c
  | None => completedSteps s = ∅
  end.

(** The steps of a checklist whose timer section shows the running or paused
    countdown rather than a start button. *)
Definition activeTimerSteps (c : Checklist) (s : Screen) : list ChecklistStep :=
  filter (fun step => timerSectionShown step && ownsTimer (order step) s = true)
         (steps c).

(** ** Sample data: the two-step checklist of the scenario *)

Definition step1 : ChecklistStep :=
  mkStep 1 "Power off" "Turn the device off" None false None.

Definition step2 : ChecklistStep :=
  mkStep 2 "Heat the back" "Soften the adhesive" (Some 30) true (Some "Hot surface").

Definition sampleChecklist : Checklist :=
  mkChecklist "c1" "Back glass" "Phone" "back_glass" [step1; step2] 15.

Definition oneStepChecklist : Checklist :=
  mkChecklist "c2" "Battery" "Phone" "battery" [step1] 5.

(** The sample checklist with the timer of step 2 just started. *)
Definition runningSample : Screen :=
  startTimer 2 30 (openChecklist sampleChecklist initialScreen).

(** ... twelve seconds later. *)
Definition midCountdown : Screen := (ticks 12 runningSample).1.

(** ... and with the timer paused right after the start. *)
Definition pausedSample : Screen := stopTimer runningSample.

(** The sample checklist with both steps pressed. *)
Definition completedSample : Screen :=
  (run [EvOpen sampleChecklist; EvPressStep 0; EvPressStep 1] initialScreen).1.

(** The one-step checklist just opened. *)
Definition openedOneStep : Screen := openChecklist oneStepChecklist initialScreen.

(** The sample checklist with the first step pressed only. *)
Definition halfDoneSample : Screen :=
  (run [EvOpen sampleChecklist; EvPressStep 0] initialScreen).1.

(** ** The time display of the checklist screen *)

(** [Number.prototype.toString()] of an integer: decimal digits, with a
    leading minus sign for a negative one.  This is what the code prints
    for the integers up to [exactBound] in magnitude (the exponent form
    starts at [1e21]). *)
Definition toString (n : Z) : string := pretty n.

Fixpoint zeros (n : nat) : string :=
  match n with
  | O => ""
  | S n' => String "0"%char (zeros n')
  end.

(** [s.padStart(targetLength, '0')]: zeros are put in front of a string that
    is shorter than [targetLength]; a longer one is returned as it is. *)
Definition padStart0 (targetLength : nat) (s : string) : string :=
  zeros (targetLength - String.length s) +:+ s.

(** [formatTime]: [Math.floor(seconds / 60)] is the floor division and
    [seconds % 60] the remainder with the sign of [seconds], for integer
    [seconds] below [exactBound], where the rounded quotient has the
    floor of the exact one. *)
Definition formatTime (seconds : Z) : string :=
  let mins := seconds `div` 60 in
  let secs := seconds `rem` 60 in
  toString mins +:+ ":" +:+ padStart0 2 (toString secs).

(** ** More about a session *)

(** The timer names a rendered step that shows a timer section; with no
    active step the timer cells have their initial values. *)
Definition timerWithinDefinition (s : Screen) : Prop :=
  match activeTimer s with
  | Some o =>
      ∃ c step, selectedChecklist s = Some c ∧ step ∈ steps c
                ∧ order step = o ∧ timerSectionShown step = true
  | None => timerValue s = 0 ∧ timerRunning s = false
  end.

(** No step of the checklist declares a negative timer. *)
Definition timersNonNegative (c : Checklist) : Prop :=
  ∀ step t, step ∈ steps c → timer_seconds step = Some t → 0 ≤ t.

(** The checklists the events of a session open declare no negative
    timer. *)
Definition opensNonNegative (es : list Event) : Prop :=
  ∀ c, EvOpen c ∈ es → timersNonNegative c.

(** The remaining seconds are not negative, a running timer has seconds
    left, and the selected checklist declares no negative timer. *)
Definition timerValueSound (s : Screen) : Prop :=
  0 ≤ timerValue s
  ∧ (timerRunning s = true → 0 < timerValue s)
  ∧ (∀ c, selectedChecklist s = Some c → timersNonNegative c).

Fixpoint countEvents (p : Event → bool) (es : list Event) : nat :=
  match es with
  | [] => 0
  | e :: es' => ((if p e then 1 else 0) + countEvents p es')%nat
  end.

Definition isTimerPress (e : Event) : bool :=
  match e with EvPressTimer _ => true | _ => false end.

Definition isTick (e : Event) : bool :=
  match e with EvTick => true | _ => false end.

(** A checklist whose two steps carry the same order. *)
Definition sameOrderChecklist : Checklist :=
  mkChecklist "c3" "Screen" "Tablet" "screen_replacement"
    [mkStep 1 "Remove screws" "Four corner screws" None false None;
     mkStep 1 "Lift the screen" "Use the suction cup" (Some 20) false None] 10.

(** ** The charts of the analytics screen

    A [Record<string, T>] is read through [Object.entries] only; it is
    represented by the list of pairs that [Object.entries] returns.  The
    averages are fractions of minutes: they are modelled by rationals, which
    every finite JavaScript number is, and [Math.round] by the nearest
    integer with ties going up. *)

Record RepairPoint := mkRepairPoint {
  duration : Z;
  date : string
}.

Record EfficiencyData := mkEfficiencyData {
  by_device : option (list (string * list RepairPoint));
  averages : option (list (string * Q));
  total_repairs : Z
}.

Definition colors : list string :=
  ["#4fc3f7"; "#10b981"; "#f59e0b"; "#8b5cf6"; "#ff6b6b"].

(** [colors[index % colors.length]]; [None] stands for [undefined]. *)
Definition colorAt (index : nat) : option string :=
  colors !! (index `mod` length colors)%nat.

Definition Math_round (x : Q) : Z := Qfloor (x + (1 # 2))%Q.

Module Bar.
Record item := mk {
  value : Z;
  label : string;
  frontColor : option string
}.
End Bar.

Module Pie.
Record item := mk {
  value : nat;
  color : option string;
  text : string
}.
End Pie.

(** [efficiencyData?.averages] and [efficiencyData?.by_device] *)
Definition getBarChartData (efficiencyData : option EfficiencyData) : list Bar.item :=
  match efficiencyData ≫= averages with
  | None => []
  | Some entries =>
      imap (fun index '(device, avg) =>
              Bar.mk (Math_round avg) (String.substring 0 8 device) (colorAt index))
           entries
  end.

Definition getPieChartData (efficiencyData : option EfficiencyData) : list Pie.item :=
  match efficiencyData ≫= by_device with
  | None => []
  | Some entries =>
      imap (fun index '(device, repairs) =>
              Pie.mk (length repairs) (colorAt index) device)
           entries
  end.

Definition sampleEfficiency : EfficiencyData :=
  mkEfficiencyData
    (Some [("iPhone 12", [mkRepairPoint 45 "2024-01-01"; mkRepairPoint 30 "2024-01-02"]);
           ("Galaxy S21 Ultra", [mkRepairPoint 50 "2024-01-03"])])
    (Some [("iPhone 12", (75 # 2)%Q); ("Galaxy S21 Ultra", (50 # 1)%Q)])
    3.

(** ** First facts about the handlers *)

Example scenario_run :
  run [EvOpen sampleChecklist; EvPressStep 0%nat; EvPressTimer 1%nat] initialScreen
  = (mkScreen (Some sampleChecklist) {[1]} (Some 2) 30 true, []).
Proof. vm_compute. reflexivity. Qed.

(** The scenario: step 1 pressed, the 30 second timer of step 2 run to its
    end, step 2 pressed. *)
Example scenario_complete :
  run ([EvOpen sampleChecklist; EvPressStep 0; EvPressTimer 1]
       ++ replicate 30 EvTick ++ [EvPressStep 1]) initialScreen
  = (mkScreen (Some sampleChecklist) {[1; 2]} (Some 2) 0 false,
     [timerCompleteAlert])
  ∧ allStepsComplete (mkScreen (Some sampleChecklist) {[1; 2]} (Some 2) 0 false)
    = true.
Proof. split; vm_compute; reflexivity. Qed.

Lemma screen_eq (s t : Screen) :
  selectedChecklist s = selectedChecklist t →
  completedSteps s = completedSteps t →
  activeTimer s = activeTimer t →
  timerValue s = timerValue t →
  timerRunning s = timerRunning t →
  s = t.
Proof. destruct s, t; simpl; intros; subst; reflexivity. Qed.

Lemma elem_of_toggleStep (o x : Z) (s : Screen) :
  x ∈ completedSteps (toggleStep o s) ↔
  (x ≠ o ∧ x ∈ completedSteps s) ∨ (x = o ∧ o ∉ completedSteps s).
Proof.
  unfold toggleStep; simpl. case_bool_decide as Hin.
  - rewrite elem_of_difference, elem_of_singleton.
    split; [intros [? ?]; left; done | intros [[? ?]|[-> ?]]; done].
  - rewrite elem_of_union, elem_of_singleton.
    destruct (decide (x = o)) as [->|Hne]; intuition congruence.
Qed.

Lemma isComplete_toggleStep (o : Z) (s : Screen) :
  isComplete o (toggleStep o s) = negb (isComplete o s).
Proof.
  unfold isComplete. pose proof (elem_of_toggleStep o o s) as H.
  do 2 case_bool_decide; simpl; intuition congruence.
Qed.

Lemma toggleStep_twice (o : Z) (s : Screen) :
  toggleStep o (toggleStep o s) = s.
Proof.
  apply screen_eq; try reflexivity.
  apply set_eq; intros x. rewrite !elem_of_toggleStep.
  destruct (decide (x = o)) as [->|Hne], (decide (o ∈ completedSteps s));
    intuition congruence.
Qed.

Lemma run_app (es1 es2 : list Event) (s : Screen) :
  run (es1 ++ es2) s =
  let '(s1, a1) := run es1 s in
  let '(s2, a2) := run es2 s1 in (s2, a1 ++ a2).
Proof.
  revert s. induction es1 as [|e es1 IH]; intros s; simpl.
  - destruct (run es2 s); reflexivity.
  - destruct (handle e s) as [s1 a1]. rewrite IH.
    destruct (run es1 s1) as [s2 a2], (run es2 s2) as [s3 a3].
    by rewrite app_assoc.
Qed.

(** ** The countdown

    The lemmas of this section are about the exact subtraction of
    [intervalCallback]; the statements about the code take them within
    [exactBound]. *)

Lemma tick_idle (s : Screen) :
  intervalInstalled s = false → tick s = (s, []).
Proof. unfold tick. intros ->. reflexivity. Qed.

Lemma ticks_idle (n : nat) (s : Screen) :
  intervalInstalled s = false → ticks n s = (s, []).
Proof.
  intros Hoff. induction n as [|n IH]; simpl; [reflexivity|].
  rewrite (tick_idle s Hoff), IH. reflexivity.
Qed.

Lemma tick_decrement (s : Screen) :
  timerRunning s = true → 1 < timerValue s →
  tick s = (setTimerValue (timerValue s - 1) s, []).
Proof.
  intros Hrun Hgt. unfold tick, intervalInstalled, intervalCallback.
  rewrite Hrun; simpl.
  rewrite bool_decide_true by lia. rewrite bool_decide_false by lia.
  reflexivity.
Qed.

Lemma tick_expire (s : Screen) :
  timerRunning s = true → timerValue s = 1 →
  tick s = (setTimerValue 0 (setTimerRunning false s), [timerCompleteAlert]).
Proof.
  intros Hrun H1. unfold tick, intervalInstalled, intervalCallback.
  rewrite Hrun, H1; simpl. reflexivity.
Qed.

Lemma tick_frame (s : Screen) :
  selectedChecklist (tick s).1 = selectedChecklist s ∧
  completedSteps (tick s).1 = completedSteps s ∧
  activeTimer (tick s).1 = activeTimer s.
Proof.
  unfold tick, intervalCallback.
  destruct (intervalInstalled s); [case_bool_decide|]; simpl; done.
Qed.

(** While more seconds remain than ticks arrive, [n] ticks take [n] seconds
    off and raise no alert. *)
Lemma ticks_countdown (n : nat) (s : Screen) :
  timerRunning s = true → Z.of_nat n < timerValue s →
  ticks n s = (setTimerValue (timerValue s - Z.of_nat n) s, []).
Proof.
  revert s. induction n as [|n IH]; intros s Hrun Hlt.
  - simpl. f_equal. destruct s; unfold setTimerValue; simpl. f_equal. lia.
  - cbn [ticks]. rewrite tick_decrement by (done || lia).
    rewrite IH by (simpl; done || lia). simpl.
    f_equal. unfold setTimerValue; simpl. f_equal. lia.
Qed.

(** A running countdown of [v > 0] seconds is over after [v] ticks or more:
    the value is [0], the timer is stopped and one alert was raised. *)
Lemma ticks_expire (n : nat) (s : Screen) :
  timerRunning s = true → 0 < timerValue s → timerValue s ≤ Z.of_nat n →
  ticks n s = (setTimerValue 0 (setTimerRunning false s), [timerCompleteAlert]).
Proof.
  revert s. induction n as [|n IH]; intros s Hrun Hpos Hle; [lia|].
  cbn [ticks]. destruct (decide (timerValue s = 1)) as [H1|Hne].
  - rewrite tick_expire by done. rewrite ticks_idle by reflexivity. reflexivity.
  - rewrite tick_decrement by (done || lia).
    rewrite IH by (simpl; done || lia). reflexivity.
Qed.

(** ** C1: what a tick of the running timer does *)

(** C1 (as amended).  While the timer runs, a tick taken with more than one
    second left (and no more than [exactBound], where taking one off is
    exact) takes one second off and raises no alert; the tick taken
    with one second left sets the value to [0], stops the timer and raises
    exactly one alert, the fixed ["Timer Complete"] alert, leaving the
    completed steps and the active step as they were.  For every step,
    after [startTimer step 5] four ticks leave one second on the running
    timer, and the fifth leaves [0] on the stopped timer with that one
    alert; the finished step is still the active step of the state. *)
Theorem tick_countdown_semantics (s : Screen) (step : Z) :
  (timerRunning s = true → 1 < timerValue s → timerValue s ≤ exactBound →
     tick s = (setTimerValue (timerValue s - 1) s, []))
  ∧ (timerRunning s = true → timerValue s = 1 →
     tick s = (mkScreen (selectedChecklist s) (completedSteps s)
                        (activeTimer s) 0 false,
               [timerCompleteAlert]))
  ∧ ticks 4 (startTimer step 5 s)
    = (mkScreen (selectedChecklist s) (completedSteps s) (Some step) 1 true, [])
  ∧ ticks 5 (startTimer step 5 s)
    = (mkScreen (selectedChecklist s) (completedSteps s) (Some step) 0 false,
       [timerCompleteAlert]).
Proof.
  split; [intros Hrun Hgt _; by apply tick_decrement|].
  split; [intros Hrun H1; rewrite tick_expire by done; reflexivity|].
  split.
  - rewrite ticks_countdown by (simpl; done || lia). reflexivity.
  - rewrite ticks_expire by (simpl; done || lia). reflexivity.
Qed.

Lemma tick_countdown_semantics_witness :
  tick runningSample = (setTimerValue 29 runningSample, [])
  ∧ tick (setTimerValue 1 runningSample)
    = (mkScreen (Some sampleChecklist) ∅ (Some 2) 0 false, [timerCompleteAlert]).
Proof.
  destruct (tick_countdown_semantics runningSample 2) as (Hdec & _).
  destruct (tick_countdown_semantics (setTimerValue 1 runningSample) 2)
    as (_ & Hexp & _).
  split.
  - apply Hdec; [reflexivity | simpl; lia | compute_done].
  - apply Hexp; reflexivity.
Defined.

(** C1 as written asks for a notification that identifies the finished
    step.  The alerts raised when the timers of step 1 and of step 2 run out
    are the same alert, so no reading of an alert gives back the step. *)
Lemma timer_alert_does_not_identify_step :
  ¬ ∃ stepOf : AlertCall → Z,
      (∀ a, a ∈ (ticks 5 (startTimer 1 5 initialScreen)).2 → stepOf a = 1)
      ∧ (∀ a, a ∈ (ticks 5 (startTimer 2 5 initialScreen)).2 → stepOf a = 2).
Proof.
  intros (stepOf & H1 & H2).
  assert (Hin1 : timerCompleteAlert ∈ (ticks 5 (startTimer 1 5 initialScreen)).2)
    by (vm_compute; apply list_elem_of_here).
  assert (Hin2 : timerCompleteAlert ∈ (ticks 5 (startTimer 2 5 initialScreen)).2)
    by (vm_compute; apply list_elem_of_here).
  specialize (H1 _ Hin1). specialize (H2 _ Hin2). congruence.
Qed.

(** ** C3: orders that are not in the checklist *)

Lemma order_rendered (i : nat) (s : Screen) (step : ChecklistStep) :
  renderedStep i s = Some step →
  ∃ c, selectedChecklist s = Some c ∧ order step ∈ stepOrders c.
Proof.
  unfold renderedStep. destruct (selectedChecklist s) as [c|]; simpl; [|done].
  intros Hlook. exists c. split; [done|].
  unfold stepOrders. apply elem_of_list_to_set, list_elem_of_fmap.
  exists step. split; [done|]. by eapply list_elem_of_lookup_2.
Qed.

Lemma pressTimer_frame (step : ChecklistStep) (s : Screen) :
  selectedChecklist (pressTimer step s) = selectedChecklist s ∧
  completedSteps (pressTimer step s) = completedSteps s.
Proof.
  unfold pressTimer.
  destruct (timerSectionShown step), (ownsTimer (order step) s),
    (timerRunning s); done.
Qed.

Lemma handle_completedWithinDefinition (e : Event) (s : Screen) :
  completedWithinDefinition s → completedWithinDefinition (handle e s).1.
Proof.
  unfold completedWithinDefinition. intros Hinv.
  destruct e as [c| |i|i|]; cbn [handle].
  - done.
  - done.
  - destruct (renderedStep i s) as [step|] eqn:Hstep; [|done].
    destruct (order_rendered _ _ _ Hstep) as (c & Hsel & Hin).
    cbn [fst]. change (selectedChecklist (pressStep step s))
      with (selectedChecklist s).
    rewrite Hsel in *. intros x.
    unfold pressStep. rewrite elem_of_toggleStep.
    intros [[_ Hx]|[-> _]]; [by apply Hinv | done].
  - destruct (renderedStep i s) as [step|]; [|done]. cbn [fst].
    destruct (pressTimer_frame step s) as [-> ->]. done.
  - destruct (tick_frame s) as (-> & -> & _). done.
Qed.

Lemma run_completedWithinDefinition (es : list Event) (s : Screen) :
  completedWithinDefinition s → completedWithinDefinition (run es s).1.
Proof.
  revert s. induction es as [|e es IH]; intros s Hinv; [done|].
  simpl. pose proof (handle_completedWithinDefinition e s Hinv) as H1.
  destruct (handle e s) as [s1 a1]. specialize (IH s1 H1).
  destruct (run es s1) as [s2 a2]. done.
Qed.

(** C3 (as amended).  [toggleStep] and [startTimer] do not look at the
    checklist: for every order, in the checklist or not, [toggleStep] flips
    the membership of the order in the completed set, and [startTimer]
    makes it the active step with the given seconds on a running timer.
    After any sequence of events of the screen (opening, closing, presses
    on rendered steps and their timer buttons, ticks) every completed order
    is a step order of the selected checklist, because the presses carry
    the orders of rendered steps only. *)
Theorem completedSteps_within_definition (o seconds : Z) (s : Screen) (es : list Event) :
  isComplete o (toggleStep o s) = negb (isComplete o s)
  ∧ startTimer o seconds s
    = mkScreen (selectedChecklist s) (completedSteps s) (Some o) seconds true
  ∧ completedWithinDefinition (run es initialScreen).1.
Proof.
  split; [apply isComplete_toggleStep|]. split; [reflexivity|].
  apply run_completedWithinDefinition. reflexivity.
Qed.

(** C3 as written makes both handlers no-ops on an order that is not a step
    order.  On the one-step checklist order 2 is no step order, yet
    [toggleStep 2] and [startTimer 2 30] both change the state, and the
    completed set is no longer within the step orders. *)
Lemma unknown_order_changes_state :
  (2 ∉ stepOrders oneStepChecklist)
  ∧ toggleStep 2 openedOneStep ≠ openedOneStep
  ∧ startTimer 2 30 openedOneStep ≠ openedOneStep
  ∧ ¬ completedSteps (toggleStep 2 openedOneStep) ⊆ stepOrders oneStepChecklist.
Proof.
  split; [compute_done|]. split; [|split].
  - intros Heq. apply (f_equal (isComplete 2)) in Heq.
    vm_compute in Heq. discriminate.
  - intros Heq. apply (f_equal timerRunning) in Heq. discriminate.
  - compute_done.
Qed.

(** ** C2: the completion banner *)

Lemma allStepsComplete_size (s : Screen) (c : Checklist) :
  selectedChecklist s = Some c →
  allStepsComplete s = true ↔ size (completedSteps s) = length (steps c).
Proof.
  intros Hsel. unfold allStepsComplete. rewrite Hsel.
  apply bool_decide_eq_true.
Qed.

Lemma size_stepOrders (c : Checklist) :
  NoDup (order <$> steps c) → size (stepOrders c) = length (steps c).
Proof.
  intros Hnd. unfold stepOrders.
  rewrite size_list_to_set by done. apply length_fmap.
Qed.

(** C2.  Let [s] be a state of a session.  With no checklist selected the
    banner condition is false.  With the checklist [c] selected it holds
    iff the completed set has as many elements as [c] has steps, and, the
    step orders of [c] being pairwise distinct, iff the completed set is
    the set of all step orders of [c], that is iff it has the cardinality
    of that set and includes it; so no state of a session makes it true by
    cardinality without set equality.  With no steps it holds. *)
Theorem allStepsComplete_session_iff (es : list Event) (s : Screen)
    (Hs : (run es initialScreen).1 = s) :
  (selectedChecklist s = None → allStepsComplete s = false)
  ∧ ∀ c, selectedChecklist s = Some c →
      (allStepsComplete s = true ↔ size (completedSteps s) = length (steps c))
      ∧ (NoDup (order <$> steps c) →
         (allStepsComplete s = true ↔ completedSteps s = stepOrders c)
         ∧ (allStepsComplete s = true ↔
            size (completedSteps s) = size (stepOrders c)
            ∧ stepOrders c ⊆ completedSteps s)
         ∧ (steps c = [] → allStepsComplete s = true)).
Proof.
  pose proof (run_completedWithinDefinition es initialScreen eq_refl) as Hinv.
  rewrite Hs in Hinv. unfold completedWithinDefinition in Hinv.
  split.
  { intros Hnone. unfold allStepsComplete. by rewrite Hnone. }
  intros c Hsel. rewrite Hsel in Hinv.
  pose proof (allStepsComplete_size s c Hsel) as Hsize.
  split; [exact Hsize|]. intros Hnd.
  pose proof (size_stepOrders c Hnd) as Hall.
  assert (Heq : allStepsComplete s = true ↔ completedSteps s = stepOrders c).
  { rewrite Hsize. split.
    - intros Hcard. apply set_subseteq_size_eq; [exact Hinv | lia].
    - intros ->. exact Hall. }
  split; [exact Heq|]. split.
  - rewrite Heq. split.
    + intros ->. split; [reflexivity|done].
    + intros [_ Hsup]. apply set_eq. intros x. split; [apply Hinv|apply Hsup].
  - intros Hnil. apply Hsize.
    pose proof (subseteq_size _ _ Hinv) as Hle.
    rewrite Hall, Hnil in Hle. rewrite Hnil. simpl in *. lia.
Qed.

Lemma allStepsComplete_session_iff_witness :
  (completedSteps completedSample = stepOrders sampleChecklist
   ∧ allStepsComplete completedSample = true)
  ∧ (completedSteps halfDoneSample ≠ stepOrders sampleChecklist
     ∧ allStepsComplete halfDoneSample = false).
Proof.
  assert (Hnd : NoDup (order <$> steps sampleChecklist)) by compute_done.
  destruct (allStepsComplete_session_iff
              [EvOpen sampleChecklist; EvPressStep 0; EvPressStep 1]
              completedSample eq_refl) as [_ Hdone].
  destruct (Hdone sampleChecklist eq_refl) as [_ Hdone'].
  destruct (Hdone' Hnd) as (Hdone_eq & _).
  destruct (allStepsComplete_session_iff
              [EvOpen sampleChecklist; EvPressStep 0]
              halfDoneSample eq_refl) as [_ Hhalf].
  destruct (Hhalf sampleChecklist eq_refl) as [_ Hhalf'].
  destruct (Hhalf' Hnd) as (Hhalf_eq & _).
  assert (Hall : completedSteps completedSample = stepOrders sampleChecklist)
    by (vm_compute; reflexivity).
  assert (Hnot : completedSteps halfDoneSample ≠ stepOrders sampleChecklist).
  { intros Heq. assert (Hin : (2 : Z) ∈ stepOrders sampleChecklist) by compute_done.
    rewrite <- Heq in Hin. revert Hin. compute_done. }
  split.
  - split; [exact Hall|]. apply Hdone_eq. exact Hall.
  - split; [exact Hnot|].
    destruct (allStepsComplete halfDoneSample) eqn:Hb; [|reflexivity].
    destruct Hnot. by apply Hhalf_eq.
Defined.

(** ** C4: one timer at a time *)

Lemma ownsTimer_unique (s : Screen) (x y : Z) :
  ownsTimer x s = true → ownsTimer y s = true → x = y.
Proof.
  unfold ownsTimer. intros Hx%bool_decide_eq_true Hy%bool_decide_eq_true.
  congruence.
Qed.

(** With pairwise distinct step orders, at most one rendered step shows
    the countdown. *)
Lemma activeTimerSteps_at_most_one (c : Checklist) (s : Screen) :
  NoDup (order <$> steps c) → (length (activeTimerSteps c s) ≤ 1)%nat.
Proof.
  unfold activeTimerSteps. generalize (steps c) as l.
  induction l as [|step l IH]; [simpl; lia|].
  rewrite fmap_cons, NoDup_cons. intros [Hnotin Hnd].
  rewrite filter_cons. case_decide as Hstep; [|by apply IH].
  destruct (filter _ l) as [|step' rest] eqn:Hrest; [simpl; lia|].
  exfalso. apply Hnotin.
  assert (Hin : step' ∈ filter
    (fun step => timerSectionShown step && ownsTimer (order step) s = true) l)
    by (rewrite Hrest; apply list_elem_of_here).
  apply list_elem_of_filter in Hin as [Hstep' Hin].
  apply andb_prop in Hstep as [_ Hown], Hstep' as [_ Hown'].
  rewrite (ownsTimer_unique s _ _ Hown Hown').
  apply list_elem_of_fmap. by exists step'.
Qed.

(** C4.  For steps [a] and [b] with [b ≠ a], [startTimer] on [a] and then on
    [b] leaves [b] the active step with [b]'s seconds on a running timer;
    the state is the one [startTimer] on [b] alone gives, so nothing of
    [a]'s timer is left and [a] does not own the timer.  In every state at
    most one order owns the timer. *)
Theorem startTimer_replaces_timer (a b secondsA secondsB : Z) (s : Screen)
    (Hne : b ≠ a) :
  startTimer b secondsB (startTimer a secondsA s)
  = mkScreen (selectedChecklist s) (completedSteps s) (Some b) secondsB true
  ∧ startTimer b secondsB (startTimer a secondsA s) = startTimer b secondsB s
  ∧ ownsTimer a (startTimer b secondsB (startTimer a secondsA s)) = false
  ∧ (∀ (t : Screen) (x y : Z),
       ownsTimer x t = true → ownsTimer y t = true → x = y).
Proof.
  repeat split.
  - unfold ownsTimer; simpl. apply bool_decide_eq_false. congruence.
  - intros t x y. apply ownsTimer_unique.
Qed.

Lemma startTimer_replaces_timer_witness :
  startTimer 2 30 (startTimer 1 60 initialScreen) = mkScreen None ∅ (Some 2) 30 true
  ∧ ownsTimer 1 (startTimer 2 30 (startTimer 1 60 initialScreen)) = false.
Proof.
  assert (Hne : (2 : Z) ≠ 1) by lia.
  destruct (startTimer_replaces_timer 1 2 60 30 initialScreen Hne)
    as (Hstate & _ & Hown & _).
  exact (conj Hstate Hown).
Defined.

(** ** C5: toggling a step *)

Lemma isComplete_toggleStep_iter (n : nat) (o : Z) (s : Screen) :
  isComplete o (Nat.iter n (toggleStep o) s)
  = if Nat.even n then isComplete o s else negb (isComplete o s).
Proof.
  induction n as [|n IH]; [reflexivity|].
  change (Nat.iter (S n) (toggleStep o) s)
    with (toggleStep o (Nat.iter n (toggleStep o) s)).
  rewrite isComplete_toggleStep, IH.
  rewrite Nat.even_succ, <- Nat.negb_even.
  destruct (Nat.even n), (isComplete o s); reflexivity.
Qed.

(** C5.  For every order (in the checklist or not) [toggleStep] takes the
    order out of the completed set when it is in it and puts it in
    otherwise, touching no other order; each call flips the membership, so
    after [n] calls the membership is the original one for even [n] and the
    opposite one for odd [n]; two calls give back the state they started
    from. *)
Theorem toggleStep_flips (o : Z) (s : Screen) :
  (∀ x, x ∈ completedSteps (toggleStep o s) ↔
        (x ≠ o ∧ x ∈ completedSteps s) ∨ (x = o ∧ o ∉ completedSteps s))
  ∧ isComplete o (toggleStep o s) = negb (isComplete o s)
  ∧ (∀ n : nat,
       isComplete o (Nat.iter n (toggleStep o) s)
       = if Nat.even n then isComplete o s else negb (isComplete o s))
  ∧ toggleStep o (toggleStep o s) = s.
Proof.
  split; [intros x; apply elem_of_toggleStep|].
  split; [apply isComplete_toggleStep|].
  split; [intros n; apply isComplete_toggleStep_iter|].
  apply toggleStep_twice.
Qed.

(** ** C6: pausing *)

(** C6.  In every state [stopTimer] sets [timerRunning] to [false] and keeps
    the active step, the remaining seconds, the completed steps and the
    selected checklist: the step that owned the timer still owns it, with
    the same seconds left, and the interval is no longer installed. *)
Theorem stopTimer_only_stops (s : Screen) (o : Z) :
  timerRunning (stopTimer s) = false
  ∧ activeTimer (stopTimer s) = activeTimer s
  ∧ timerValue (stopTimer s) = timerValue s
  ∧ completedSteps (stopTimer s) = completedSteps s
  ∧ selectedChecklist (stopTimer s) = selectedChecklist s
  ∧ ownsTimer o (stopTimer s) = ownsTimer o s
  ∧ intervalInstalled (stopTimer s) = false.
Proof.
  unfold stopTimer, setTimerRunning, ownsTimer, intervalInstalled.
  cbn [timerRunning activeTimer timerValue completedSteps selectedChecklist].
  repeat split.
Qed.

(** ** C7: ticks of a stopped timer *)

(** C7.  From a state whose timer is not running, any number of ticks gives
    back the same state and raises no alert; in particular after
    [stopTimer]. *)
Theorem ticks_when_stopped (n : nat) (s : Screen)
    (Hstopped : timerRunning s = false) :
  ticks n s = (s, [])
  ∧ ∀ t : Screen, ticks n (stopTimer t) = (stopTimer t, []).
Proof.
  split.
  - apply ticks_idle. unfold intervalInstalled. rewrite Hstopped. reflexivity.
  - intros t. apply ticks_idle. reflexivity.
Qed.

Lemma ticks_when_stopped_witness :
  timerRunning pausedSample = false ∧ ticks 10 pausedSample = (pausedSample, []).
Proof.
  assert (Hstopped : timerRunning pausedSample = false) by reflexivity.
  destruct (ticks_when_stopped 10 pausedSample Hstopped) as [Hsame _].
  exact (conj Hstopped Hsame).
Defined.

(** ** C8: opening a checklist *)

(** C8.  [openChecklist] gives, from every state, the state with the opened
    checklist selected, nothing completed, no active step, [0] seconds and a
    stopped timer; so does a session of any events that ends with opening a
    checklist, whatever happened before. *)
Theorem openChecklist_fresh (c : Checklist) (s : Screen) (es : list Event) :
  openChecklist c s = mkScreen (Some c) ∅ None 0 false
  ∧ (run (es ++ [EvOpen c]) initialScreen).1 = mkScreen (Some c) ∅ None 0 false.
Proof.
  split; [reflexivity|].
  rewrite run_app. destruct (run es initialScreen) as [s1 a1]. reflexivity.
Qed.

(** ** C9: pause and resume *)

(** C9.  From a state whose timer runs on step [stepS] with [r > 0] seconds
    left, [stopTimer] followed by [startTimer stepS r] gives back that very
    state; so does pressing the timer button of a rendered step of order
    [stepS] twice (pause, then play), since the play button resumes with the
    seconds that are left. *)
Theorem pause_resume_roundtrip (s : Screen) (stepS r : Z)
    (Hactive : activeTimer s = Some stepS)
    (Hleft : timerValue s = r)
    (Hpos : 0 < r)
    (Hrun : timerRunning s = true) :
  startTimer stepS r (stopTimer s) = s
  ∧ ∀ step : ChecklistStep,
      order step = stepS → timerSectionShown step = true →
      pressTimer step s = stopTimer s
      ∧ pressTimer step (pressTimer step s) = s.
Proof.
  assert (Hback : startTimer stepS r (stopTimer s) = s).
  { apply screen_eq; simpl; congruence. }
  split; [exact Hback|].
  intros step Hord Hshown.
  assert (Hpause : pressTimer step s = stopTimer s).
  { unfold pressTimer, ownsTimer. rewrite Hshown, Hord, Hrun.
    rewrite bool_decide_true by done. reflexivity. }
  split; [exact Hpause|].
  rewrite Hpause. unfold pressTimer, ownsTimer, resumeSeconds.
  rewrite Hshown, Hord. simpl.
  rewrite bool_decide_true by done.
  rewrite bool_decide_false by lia.
  rewrite Hleft. exact Hback.
Qed.

Lemma pause_resume_roundtrip_witness :
  timerValue midCountdown = 18
  ∧ startTimer 2 18 (stopTimer midCountdown) = midCountdown
  ∧ pressTimer step2 (pressTimer step2 midCountdown) = midCountdown.
Proof.
  assert (Hactive : activeTimer midCountdown = Some 2) by reflexivity.
  assert (Hleft : timerValue midCountdown = 18) by reflexivity.
  assert (Hpos : 0 < 18) by lia.
  assert (Hrun : timerRunning midCountdown = true) by reflexivity.
  destruct (pause_resume_roundtrip midCountdown 2 18 Hactive Hleft Hpos Hrun)
    as [Hback Hpress].
  split; [exact Hleft|]. split; [exact Hback|].
  apply (Hpress step2); reflexivity.
Defined.

(** ** C10: [startTimer] with no seconds *)

(** C10.  [startTimer] checks nothing: for every order and every number of
    seconds it makes the order the active step, stores the seconds and
    marks the timer running.  Called with [0] seconds it leaves a running
    timer on which no interval is installed, so any number of ticks gives
    back the same state, with [0] seconds, still marked running, and no
    alert is raised. *)
Theorem startTimer_unchecked (o seconds : Z) (s : Screen) (n : nat) :
  startTimer o seconds s
  = mkScreen (selectedChecklist s) (completedSteps s) (Some o) seconds true
  ∧ intervalInstalled (startTimer o 0 s) = false
  ∧ ticks n (startTimer o 0 s)
    = (mkScreen (selectedChecklist s) (completedSteps s) (Some o) 0 true, []).
Proof.
  split; [reflexivity|]. split; [reflexivity|].
  apply ticks_idle. reflexivity.
Qed.

(** ** The time display *)

Example formatTime_samples :
  formatTime 0 = "0:00" ∧ formatTime 5 = "0:05" ∧ formatTime 90 = "1:30"
  ∧ formatTime 600 = "10:00" ∧ formatTime 3725 = "62:05".
Proof. vm_compute. repeat split. Qed.

Example getPieChartData_sample :
  getPieChartData (Some sampleEfficiency)
  = [Pie.mk 2 (Some "#4fc3f7") "iPhone 12";
     Pie.mk 1 (Some "#10b981") "Galaxy S21 Ultra"]
  ∧ getBarChartData (Some sampleEfficiency)
  = [Bar.mk 38 "iPhone 1" (Some "#4fc3f7");
     Bar.mk 50 "Galaxy S" (Some "#10b981")].
Proof. vm_compute. split; reflexivity. Qed.

(** ** The whole countdown *)

(** X1.  A timer started with [v > 0] seconds, [v] no more than
    [exactBound], shows [v - n] seconds, still
    running and with no alert raised, after [n < v] ticks; after [v] ticks
    or more it shows [0], is stopped and exactly one alert was raised, on
    the same active step. *)
Theorem countdown_runs_to_zero (o v : Z) (s : Screen) (n : nat)
    (Hpos : 0 < v) (Hmax : v ≤ exactBound) :
  ticks n (startTimer o v s)
  = if bool_decide (Z.of_nat n < v)
    then (mkScreen (selectedChecklist s) (completedSteps s) (Some o)
                   (v - Z.of_nat n) true, [])
    else (mkScreen (selectedChecklist s) (completedSteps s) (Some o) 0 false,
          [timerCompleteAlert]).
Proof.
  case_bool_decide as Hn.
  - rewrite ticks_countdown by (simpl; done || lia). reflexivity.
  - rewrite ticks_expire by (simpl; done || lia). reflexivity.
Qed.

Lemma countdown_runs_to_zero_witness :
  ticks 29 (startTimer 2 30 initialScreen)
  = (mkScreen None ∅ (Some 2) 1 true, [])
  ∧ ticks 45 (startTimer 2 30 initialScreen)
  = (mkScreen None ∅ (Some 2) 0 false, [timerCompleteAlert]).
Proof.
  assert (Hpos : 0 < 30) by lia.
  assert (Hmax : 30 ≤ exactBound) by compute_done.
  split.
  - exact (countdown_runs_to_zero 2 30 initialScreen 29 Hpos Hmax).
  - exact (countdown_runs_to_zero 2 30 initialScreen 45 Hpos Hmax).
Defined.

(** X2.  Closing the checklist gives back the initial state from any state,
    and opening another checklist resets the timer as well: in both cases
    the interval is gone, so no later tick changes anything or raises an
    alert for the abandoned timer. *)
Theorem closeChecklist_cancels_timer (s : Screen) (c : Checklist) (n : nat) :
  ticks n (closeChecklist s) = (initialScreen, [])
  ∧ ticks n (openChecklist c s) = (mkScreen (Some c) ∅ None 0 false, []).
Proof.
  split; rewrite ticks_idle by reflexivity; reflexivity.
Qed.

(** ** Completion and the timer do not interfere *)

Lemma tick_toggleStep (o : Z) (s : Screen) :
  tick (toggleStep o s) = (toggleStep o (tick s).1, (tick s).2).
Proof.
  unfold tick, intervalCallback, intervalInstalled.
  change (timerRunning (toggleStep o s)) with (timerRunning s).
  change (timerValue (toggleStep o s)) with (timerValue s).
  destruct (timerRunning s); [|reflexivity].
  rewrite andb_true_l.
  destruct (bool_decide (0 < timerValue s)); [|reflexivity].
  destruct (bool_decide (timerValue s ≤ 1)); reflexivity.
Qed.

(** X3.  Marking steps and counting down are independent: toggling a step
    before [n] ticks gives the same state and the same alerts as toggling
    it after them, and toggling commutes with starting and stopping a
    timer on any step. *)
Theorem completion_independent_of_timer (o o' seconds : Z) (s : Screen) (n : nat) :
  ticks n (toggleStep o s) = (toggleStep o (ticks n s).1, (ticks n s).2)
  ∧ toggleStep o (startTimer o' seconds s) = startTimer o' seconds (toggleStep o s)
  ∧ toggleStep o (stopTimer s) = stopTimer (toggleStep o s).
Proof.
  split; [|split; reflexivity].
  revert s. induction n as [|n IH]; intros s; [reflexivity|].
  cbn [ticks]. rewrite tick_toggleStep.
  destruct (tick s) as [s1 a1]. cbn [fst snd]. rewrite IH.
  destruct (ticks n s1) as [s2 a2]. reflexivity.
Qed.

(** X4.  Toggling two steps gives the same completed set in either order. *)
Theorem toggleStep_commutes (a b : Z) (s : Screen) :
  toggleStep a (toggleStep b s) = toggleStep b (toggleStep a s).
Proof.
  apply screen_eq; try reflexivity.
  apply set_eq; intros x. rewrite !elem_of_toggleStep.
  destruct (decide (x = a)) as [Ha|Ha], (decide (x = b)) as [Hb|Hb],
    (decide (a ∈ completedSteps s)), (decide (b ∈ completedSteps s));
    subst; intuition congruence.
Qed.

(** X5.  Each toggle moves the number of completed steps shown in the header
    by exactly one: down when the step was completed, up when it was not. *)
Theorem toggleStep_size (o : Z) (s : Screen) :
  if isComplete o s
  then S (size (completedSteps (toggleStep o s))) = size (completedSteps s)
  else size (completedSteps (toggleStep o s)) = S (size (completedSteps s)).
Proof.
  unfold isComplete, toggleStep. simpl. case_bool_decide as Hin.
  - assert (Hsub : ({[o]} : gset Z) ⊆ completedSteps s)
      by (apply singleton_subseteq_l; exact Hin).
    pose proof (subseteq_size _ _ Hsub) as Hle.
    rewrite size_difference by exact Hsub.
    rewrite size_singleton in *. lia.
  - rewrite size_union by (apply disjoint_singleton_r; exact Hin).
    rewrite size_singleton. lia.
Qed.

(** ** Invariants of every session *)

Lemma run_invariant (P : Screen → Prop) :
  (∀ e s, P s → P (handle e s).1) →
  ∀ es s, P s → P (run es s).1.
Proof.
  intros Hstep es. induction es as [|e es IH]; intros s Hs; [exact Hs|].
  simpl. pose proof (Hstep e s Hs) as H1.
  destruct (handle e s) as [s1 a1]. specialize (IH s1 H1).
  destruct (run es s1) as [s2 a2]. exact IH.
Qed.

Lemma rendered_elem (i : nat) (s : Screen) (step : ChecklistStep) :
  renderedStep i s = Some step →
  ∃ c, selectedChecklist s = Some c ∧ step ∈ steps c.
Proof.
  unfold renderedStep. destruct (selectedChecklist s) as [c|]; simpl; [|done].
  intros Hlook. exists c. split; [done|]. by eapply list_elem_of_lookup_2.
Qed.

Lemma pressTimer_timerWithinDefinition (c : Checklist) (step : ChecklistStep)
    (s : Screen) :
  selectedChecklist s = Some c → step ∈ steps c →
  timerWithinDefinition s → timerWithinDefinition (pressTimer step s).
Proof.
  intros Hsel Hin Hinv. unfold pressTimer.
  destruct (timerSectionShown step) eqn:Hshown; [|exact Hinv].
  assert (Hstart : ∀ v, timerWithinDefinition (startTimer (order step) v s)).
  { intros v. unfold timerWithinDefinition. simpl. by exists c, step. }
  destruct (ownsTimer (order step) s) eqn:Hown; [|apply Hstart].
  destruct (timerRunning s); [|apply Hstart].
  apply bool_decide_eq_true in Hown.
  unfold timerWithinDefinition. simpl. rewrite Hown. by exists c, step.
Qed.

Lemma handle_timerWithinDefinition (e : Event) (s : Screen) :
  timerWithinDefinition s → timerWithinDefinition (handle e s).1.
Proof.
  intros Hinv. destruct e as [c| |i|i|]; cbn [handle].
  - by split.
  - by split.
  - destruct (renderedStep i s); exact Hinv.
  - destruct (renderedStep i s) as [step|] eqn:Hstep; [|exact Hinv].
    destruct (rendered_elem _ _ _ Hstep) as (c & Hsel & Hin).
    by apply (pressTimer_timerWithinDefinition c).
  - unfold timerWithinDefinition in *.
    destruct (activeTimer s) as [o|] eqn:Hact.
    + destruct (tick_frame s) as (-> & _ & ->). rewrite Hact. exact Hinv.
    + destruct Hinv as [Hv Hrun]. rewrite tick_idle.
      * cbn [fst]. by rewrite Hact.
      * unfold intervalInstalled. by rewrite Hrun.
Qed.

(** X6.  In every state of a session the active step, if there is one, is
    the order of a step of the selected checklist whose timer section is
    rendered; with no active step the timer shows [0] and is stopped; a
    running timer always has an active step; and with no checklist selected
    the state is the initial one. *)
Theorem session_timer_within_definition (es : list Event) :
  timerWithinDefinition (run es initialScreen).1
  ∧ (timerRunning (run es initialScreen).1 = true →
     is_Some (activeTimer (run es initialScreen).1))
  ∧ (selectedChecklist (run es initialScreen).1 = None →
     (run es initialScreen).1 = initialScreen).
Proof.
  assert (Htimer : timerWithinDefinition (run es initialScreen).1).
  { apply run_invariant; [apply handle_timerWithinDefinition|by split]. }
  assert (Hdone : completedWithinDefinition (run es initialScreen).1).
  { apply run_completedWithinDefinition. reflexivity. }
  revert Htimer Hdone. generalize (run es initialScreen).1 as s.
  intros s Htimer Hdone. split; [exact Htimer|].
  unfold timerWithinDefinition, completedWithinDefinition in *. split.
  - intros Hrun. destruct (activeTimer s); [by eexists|].
    destruct Htimer as [_ Hstop]. congruence.
  - intros Hnone. rewrite Hnone in Hdone.
    destruct (activeTimer s) as [o|] eqn:Hact.
    + destruct Htimer as (c & _ & Hsel & _). congruence.
    + destruct Htimer as [Hv Hrun]. by apply screen_eq.
Qed.

Lemma session_timer_within_definition_witness :
  activeTimer (run [EvOpen sampleChecklist; EvPressTimer 1; EvTick; EvClose]
                   initialScreen).1 = None
  ∧ (run [EvOpen sampleChecklist; EvPressTimer 1; EvTick; EvClose]
         initialScreen).1 = initialScreen.
Proof.
  destruct (session_timer_within_definition
              [EvOpen sampleChecklist; EvPressTimer 1; EvTick; EvClose])
    as (_ & _ & Hinit).
  split; [reflexivity|]. apply Hinit. reflexivity.
Defined.

(** *** Alerts *)

(** What a state can still raise without another press: one alert when the
    interval is installed, none otherwise. *)
Lemma handle_alert_budget (e : Event) (s : Screen) :
  (length (handle e s).2 + (if intervalInstalled (handle e s).1 then 1 else 0)
   ≤ (if isTimerPress e then 1 else 0) + (if intervalInstalled s then 1 else 0))%nat.
Proof.
  destruct e as [c| |i|i|]; cbn [handle isTimerPress].
  - simpl. lia.
  - simpl. lia.
  - destruct (renderedStep i s) as [step|]; cbn [fst snd length];
      [change (intervalInstalled (pressStep step s)) with (intervalInstalled s)|];
      lia.
  - destruct (renderedStep i s) as [step|]; cbn [fst snd length].
    + destruct (intervalInstalled (pressTimer step s)); lia.
    + lia.
  - unfold tick. destruct (intervalInstalled s) eqn:Hon; [|simpl; rewrite Hon; lia].
    unfold intervalCallback. case_bool_decide as Hle; cbn [fst snd length].
    + unfold intervalInstalled. simpl. lia.
    + destruct (intervalInstalled (setTimerValue (timerValue s - 1) s)); lia.
Qed.

Lemma run_alert_budget (es : list Event) (s : Screen) :
  (length (run es s).2
   ≤ countEvents isTimerPress es + (if intervalInstalled s then 1 else 0))%nat.
Proof.
  revert s. induction es as [|e es IH]; intros s; [simpl; lia|].
  cbn [run countEvents]. pose proof (handle_alert_budget e s) as He.
  destruct (handle e s) as [s1 a1]. specialize (IH s1).
  destruct (run es s1) as [s2 a2]. cbn [fst snd] in *.
  rewrite length_app. lia.
Qed.

Lemma run_alert_ticks (es : list Event) (s : Screen) :
  (length (run es s).2 ≤ countEvents isTick es)%nat.
Proof.
  revert s. induction es as [|e es IH]; intros s; [simpl; lia|].
  cbn [run countEvents].
  assert (He : (length (handle e s).2 ≤ if isTick e then 1 else 0)%nat).
  { destruct e as [c| |i|i|]; cbn [handle isTick];
      try (simpl; lia); try (destruct (renderedStep i s); simpl; lia).
    unfold tick, intervalCallback.
    destruct (intervalInstalled s); [case_bool_decide|]; simpl; lia. }
  destruct (handle e s) as [s1 a1]. specialize (IH s1).
  destruct (run es s1) as [s2 a2]. cbn [fst snd] in *.
  rewrite length_app. lia.
Qed.

(** X7.  A session raises no more alerts than it has presses on timer
    buttons, and no more than it has ticks: every alert needs a timer that
    was started by a press of its own and a tick that brings it to zero.
    Every alert raised is the "Timer Complete" alert. *)
Theorem alerts_bounded_by_timer_presses (es : list Event) :
  (length (run es initialScreen).2 ≤ countEvents isTimerPress es)%nat
  ∧ (length (run es initialScreen).2 ≤ countEvents isTick es)%nat
  ∧ Forall (eq timerCompleteAlert) (run es initialScreen).2.
Proof.
  split; [|split].
  - pose proof (run_alert_budget es initialScreen) as H. simpl in H. lia.
  - apply run_alert_ticks.
  - generalize initialScreen as s. induction es as [|e es IH]; intros s.
    + constructor.
    + cbn [run].
      assert (He : Forall (eq timerCompleteAlert) (handle e s).2).
      { destruct e as [c| |i|i|]; cbn [handle];
          try (destruct (renderedStep i s)); try (by constructor).
        unfold tick, intervalCallback.
        destruct (intervalInstalled s); [case_bool_decide|]; simpl;
          repeat constructor. }
      destruct (handle e s) as [s1 a1]. specialize (IH s1).
      destruct (run es s1) as [s2 a2]. cbn [fst snd] in *.
      apply Forall_app. by split.
Qed.

(** *** The progress shown in the header *)

Lemma size_list_to_set_le (l : list Z) :
  (size (list_to_set l : gset Z) ≤ length l)%nat.
Proof.
  induction l as [|x l IH].
  { rewrite list_to_set_nil, size_empty. simpl. lia. }
  rewrite list_to_set_cons, size_union_alt, size_singleton. simpl.
  pose proof (subseteq_size (list_to_set l ∖ {[x]}) (list_to_set l : gset Z)) as H.
  assert (Hsub : (list_to_set l ∖ {[x]} : gset Z) ⊆ list_to_set l).
  { intros y. rewrite elem_of_difference. tauto. }
  specialize (H Hsub). lia.
Qed.

Lemma size_list_to_set_dup (l : list Z) :
  ¬ NoDup l → (size (list_to_set l : gset Z) < length l)%nat.
Proof.
  induction l as [|x l IH]; intros Hdup; [destruct Hdup; constructor|].
  rewrite list_to_set_cons. simpl. destruct (decide (x ∈ l)) as [Hin|Hout].
  - assert (Heq : ({[x]} ∪ list_to_set l : gset Z) = list_to_set l).
    { apply set_eq. intros y.
      rewrite elem_of_union, elem_of_singleton, elem_of_list_to_set.
      split; [intros [->|?]; done | by right]. }
    rewrite Heq. pose proof (size_list_to_set_le l). lia.
  - assert (Hdup' : ¬ NoDup l).
    { intros Hnd. apply Hdup. by constructor. }
    specialize (IH Hdup').
    rewrite size_union_alt, size_singleton.
    assert (Hsub : (list_to_set l ∖ {[x]} : gset Z) ⊆ list_to_set l).
    { intros y. rewrite elem_of_difference. tauto. }
    pose proof (subseteq_size _ _ Hsub). lia.
Qed.

(** X8.  In a session the header never shows more completed steps than the
    selected checklist has steps. *)
Theorem progress_within_total (es : list Event) (c : Checklist)
    (Hsel : selectedChecklist (run es initialScreen).1 = Some c) :
  progressCount (run es initialScreen).1
  = (size (completedSteps (run es initialScreen).1), Some (length (steps c)))
  ∧ (size (completedSteps (run es initialScreen).1) ≤ length (steps c))%nat.
Proof.
  pose proof (run_completedWithinDefinition es initialScreen eq_refl) as Hinv.
  unfold completedWithinDefinition, progressCount in *. rewrite Hsel in *.
  split; [reflexivity|].
  etrans; [apply subseteq_size, Hinv|].
  unfold stepOrders. etrans; [apply size_list_to_set_le|].
  by rewrite length_fmap.
Qed.

Lemma progress_within_total_witness :
  progressCount completedSample = (2%nat, Some 2%nat).
Proof.
  assert (Hsel : selectedChecklist
            (run [EvOpen sampleChecklist; EvPressStep 0; EvPressStep 1]
                 initialScreen).1 = Some sampleChecklist) by reflexivity.
  destruct (progress_within_total _ _ Hsel) as [Hcount _].
  unfold completedSample. rewrite Hcount. vm_compute. reflexivity.
Defined.

(** X9.  When two steps of the selected checklist carry the same order, no
    session reaches a state in which the completion banner is shown: the
    completed set holds orders, so it stays smaller than the number of
    steps. *)
Theorem duplicate_orders_never_complete (es : list Event) (c : Checklist)
    (Hsel : selectedChecklist (run es initialScreen).1 = Some c)
    (Hdup : ¬ NoDup (order <$> steps c)) :
  allStepsComplete (run es initialScreen).1 = false.
Proof.
  pose proof (run_completedWithinDefinition es initialScreen eq_refl) as Hinv.
  unfold completedWithinDefinition, allStepsComplete in *. rewrite Hsel in *.
  apply bool_decide_eq_false.
  pose proof (subseteq_size _ _ Hinv) as Hle.
  pose proof (size_list_to_set_dup _ Hdup) as Hlt.
  unfold stepOrders in Hle. rewrite length_fmap in Hlt. lia.
Qed.

Lemma duplicate_orders_never_complete_witness :
  isComplete 1 (run [EvOpen sameOrderChecklist; EvPressStep 0] initialScreen).1 = true
  ∧ allStepsComplete (run [EvOpen sameOrderChecklist; EvPressStep 0] initialScreen).1
    = false.
Proof.
  split; [reflexivity|].
  apply (duplicate_orders_never_complete _ sameOrderChecklist); [reflexivity|].
  compute_done.
Defined.

(** *** The remaining seconds *)

Lemma pressTimer_timerValueSound (c : Checklist) (step : ChecklistStep)
    (s : Screen) :
  selectedChecklist s = Some c → step ∈ steps c →
  timerValueSound s → timerValueSound (pressTimer step s).
Proof.
  intros Hsel Hin (Hv & Hrun & Hdata). unfold pressTimer.
  destruct (timerSectionShown step) eqn:Hshown; [|by split].
  unfold timerSectionShown in Hshown. unfold resumeSeconds, declaredSeconds.
  destruct (timer_seconds step) as [t|] eqn:Ht; [|discriminate].
  apply negb_true_iff, bool_decide_eq_false in Hshown.
  pose proof (Hdata c Hsel step t Hin Ht) as Ht0. simpl.
  destruct (ownsTimer (order step) s); [destruct (timerRunning s) eqn:Hr|].
  - split; [exact Hv|]. split; [discriminate|exact Hdata].
  - case_bool_decide; (split; [simpl; lia|]); (split; [simpl; lia|exact Hdata]).
  - split; [simpl; lia|]. split; [simpl; lia|exact Hdata].
Qed.

Lemma handle_timerValueSound (e : Event) (s : Screen) :
  (∀ c, e = EvOpen c → timersNonNegative c) →
  timerValueSound s → timerValueSound (handle e s).1.
Proof.
  intros Hopen Hinv. destruct e as [c| |i|i|]; cbn [handle fst].
  - split; [simpl; lia|]. split; [discriminate|].
    simpl. intros c' [= <-]. by apply Hopen.
  - split; [simpl; lia|]. split; discriminate.
  - destruct (renderedStep i s); exact Hinv.
  - destruct (renderedStep i s) as [step|] eqn:Hstep; [|exact Hinv].
    destruct (rendered_elem _ _ _ Hstep) as (c & Hsel & Hin).
    by apply (pressTimer_timerValueSound c).
  - unfold tick, intervalInstalled, intervalCallback.
    destruct (timerRunning s) eqn:Hr; [|exact Hinv].
    destruct Hinv as (Hv & Hrun & Hdata).
    specialize (Hrun Hr).
    rewrite andb_true_l, bool_decide_true by exact Hrun.
    case_bool_decide.
    + split; [simpl; lia|]. split; [discriminate|exact Hdata].
    + split; [simpl; lia|]. split; [simpl; lia|exact Hdata].
Qed.

Lemma run_timerValueSound (es : list Event) (s : Screen) :
  opensNonNegative es → timerValueSound s → timerValueSound (run es s).1.
Proof.
  revert s. induction es as [|e es IH]; intros s Hdata Hinv; [exact Hinv|].
  cbn [run].
  assert (H1 : timerValueSound (handle e s).1).
  { apply handle_timerValueSound; [|exact Hinv].
    intros c ->. apply Hdata. apply list_elem_of_here. }
  destruct (handle e s) as [s1 a1].
  assert (H2 : timerValueSound (run es s1).1).
  { apply IH; [|exact H1]. intros c Hc. apply Hdata.
    by apply list_elem_of_further. }
  destruct (run es s1) as [s2 a2]. exact H2.
Qed.

(** X10.  When the checklists opened in a session declare no negative timer,
    the remaining seconds are never negative, and whenever the timer is
    marked running there are seconds left, so the interval is installed:
    a running timer stuck at [0] is not a state of a session. *)
Theorem session_timer_value_sound (es : list Event)
    (Hdata : opensNonNegative es) :
  0 ≤ timerValue (run es initialScreen).1
  ∧ (timerRunning (run es initialScreen).1 = true →
     0 < timerValue (run es initialScreen).1)
  ∧ intervalInstalled (run es initialScreen).1
    = timerRunning (run es initialScreen).1.
Proof.
  assert (Hinv : timerValueSound (run es initialScreen).1).
  { apply run_timerValueSound; [exact Hdata|].
    split; [simpl; lia|]. split; discriminate. }
  destruct Hinv as (Hv & Hrun & _). split; [exact Hv|]. split; [exact Hrun|].
  unfold intervalInstalled.
  destruct (timerRunning (run es initialScreen).1); [|reflexivity].
  rewrite bool_decide_true by (apply Hrun; reflexivity). reflexivity.
Qed.

Lemma session_timer_value_sound_witness :
  0 ≤ timerValue (run [EvOpen sampleChecklist; EvPressTimer 1; EvTick; EvTick]
                      initialScreen).1
  ∧ 0 < timerValue (run [EvOpen sampleChecklist; EvPressTimer 1; EvTick; EvTick]
                        initialScreen).1.
Proof.
  assert (Hdata : opensNonNegative
            [EvOpen sampleChecklist; EvPressTimer 1; EvTick; EvTick]).
  { intros c Hc. apply elem_of_cons in Hc as [[= ->]|Hc].
    - intros step t Hstep Ht.
      apply elem_of_cons in Hstep as [->|Hstep]; [discriminate|].
      apply elem_of_cons in Hstep as [->|Hstep]; [|by apply elem_of_nil in Hstep].
      injection Ht as <-. lia.
    - repeat (apply elem_of_cons in Hc as [Hc|Hc]; [discriminate|]).
      by apply elem_of_nil in Hc. }
  destruct (session_timer_value_sound _ Hdata) as (Hv & Hrun & _).
  split; [exact Hv|]. apply Hrun. reflexivity.
Defined.

(** *** Starting again after the end *)

(** X11.  For a step that declares [d > 0] seconds, [d] no more than
    [exactBound]: once its countdown has
    run to the end ([d] ticks after the start), the state shows [0] on the
    stopped timer of that step, and the play button then starts the whole
    declared duration again, giving the state of the first start. *)
Theorem timer_restarts_after_completion (step : ChecklistStep) (d : Z) (s : Screen)
    (Hdecl : timer_seconds step = Some d) (Hpos : 0 < d)
    (Hmax : d ≤ exactBound) :
  (ownsTimer (order step) s = false →
   pressTimer step s = startTimer (order step) d s)
  ∧ ticks (Z.to_nat d) (startTimer (order step) d s)
    = (mkScreen (selectedChecklist s) (completedSteps s) (Some (order step)) 0 false,
       [timerCompleteAlert])
  ∧ pressTimer step
      (mkScreen (selectedChecklist s) (completedSteps s) (Some (order step)) 0 false)
    = startTimer (order step) d s.
Proof.
  assert (Hshown : timerSectionShown step = true).
  { unfold timerSectionShown. rewrite Hdecl.
    apply negb_true_iff, bool_decide_eq_false. lia. }
  split; [|split].
  - intros Hown. unfold pressTimer, declaredSeconds.
    rewrite Hshown, Hown, Hdecl. reflexivity.
  - rewrite ticks_expire by (simpl; done || lia). reflexivity.
  - unfold pressTimer, ownsTimer, resumeSeconds, declaredSeconds.
    rewrite Hshown, Hdecl. simpl.
    rewrite bool_decide_true by done. reflexivity.
Qed.

Lemma timer_restarts_after_completion_witness :
  pressTimer step2 (ticks 30 runningSample).1 = runningSample.
Proof.
  assert (Hdecl : timer_seconds step2 = Some 30) by reflexivity.
  assert (Hpos : 0 < 30) by lia.
  assert (Hmax : 30 ≤ exactBound) by compute_done.
  destruct (timer_restarts_after_completion step2 30
              (openChecklist sampleChecklist initialScreen) Hdecl Hpos Hmax)
    as (_ & Hend & Hagain).
  unfold runningSample.
  change 30%nat with (Z.to_nat 30). change 2 with (order step2) at 1.
  rewrite Hend. exact Hagain.
Defined.

(** ** The time display, continued *)

Lemma string_app_length (s t : string) :
  String.length (s +:+ t) = (String.length s + String.length t)%nat.
Proof. induction s as [|c s IH]; simpl; [reflexivity|]. by rewrite IH. Qed.





(** ** The chart data *)

Lemma colorAt_palette (index : nat) :
  ∃ c, colorAt index = Some c ∧ c ∈ colors.
Proof.
  unfold colorAt.
  assert (Hlt : (index `mod` length colors < length colors)%nat)
    by (apply Nat.mod_upper_bound; discriminate).
  destruct (lookup_lt_is_Some_2 colors _ Hlt) as [c Hc].
  exists c. split; [exact Hc|]. by eapply list_elem_of_lookup_2.
Qed.

Lemma colorAt_same (i j : nat) :
  colorAt i = colorAt j ↔ (i `mod` 5 = j `mod` 5)%nat.
Proof.
  unfold colorAt. change (length colors) with 5%nat.
  pose proof (Nat.mod_upper_bound i 5) as Hi.
  pose proof (Nat.mod_upper_bound j 5) as Hj.
  split; [|by intros ->].
  generalize dependent (i `mod` 5)%nat. generalize dependent (j `mod` 5)%nat.
  intros m Hm n Hn.
  do 5 (destruct n as [|n]; [do 5 (destruct m as [|m]; [done|]); lia|]). lia.
Qed.

Lemma sum_list_lengths {A} (ls : list (list A)) :
  sum_list (length <$> ls) = length (concat ls).
Proof.
  induction ls as [|l ls IH]; simpl; [reflexivity|].
  rewrite length_app. f_equal. exact IH.
Qed.

(** X13.  The pie chart has one slice per device of [by_device], in the
    order of the entries and with the device as its text (none when the
    data or [by_device] is missing); the values of the slices add up to the
    number of repair records; every slice has a colour of the palette,
    never an undefined one, and two slices have the same colour exactly
    when their positions differ by a multiple of five. *)
Theorem getPieChartData_slices (efficiencyData : option EfficiencyData) :
  Pie.text <$> getPieChartData efficiencyData
  = fst <$> default [] (efficiencyData ≫= by_device)
  ∧ sum_list (Pie.value <$> getPieChartData efficiencyData)
    = length (concat (snd <$> default [] (efficiencyData ≫= by_device)))
  ∧ (∀ i item, getPieChartData efficiencyData !! i = Some item →
       (∃ c, Pie.color item = Some c ∧ c ∈ colors)
       ∧ ∀ j item', getPieChartData efficiencyData !! j = Some item' →
           (Pie.color item = Pie.color item' ↔ (i `mod` 5 = j `mod` 5)%nat)).
Proof.
  unfold getPieChartData.
  destruct (efficiencyData ≫= by_device) as [entries|]; simpl.
  2: { split; [done|]. split; [done|]. intros i item Hi.
       by rewrite lookup_nil in Hi. }
  split; [|split].
  - apply list_eq. intros i.
    rewrite !list_lookup_fmap, list_lookup_imap.
    by destruct (entries !! i) as [[device repairs]|].
  - rewrite <- sum_list_lengths. f_equal.
    apply list_eq. intros i.
    rewrite <- list_fmap_compose, !list_lookup_fmap, list_lookup_imap.
    by destruct (entries !! i) as [[device repairs]|].
  - intros i item Hi. rewrite list_lookup_imap in Hi.
    destruct (entries !! i) as [[device repairs]|]; [|done].
    injection Hi as <-. simpl. split; [apply colorAt_palette|].
    intros j item' Hj. rewrite list_lookup_imap in Hj.
    destruct (entries !! j) as [[device' repairs']|]; [|done].
    injection Hj as <-. simpl. apply colorAt_same.
Qed.

Lemma getPieChartData_slices_witness :
  sum_list (Pie.value <$> getPieChartData (Some sampleEfficiency)) = 3%nat
  ∧ ∃ c, getPieChartData (Some sampleEfficiency) !! 1%nat
         = Some (Pie.mk 1 (Some c) "Galaxy S21 Ultra") ∧ c ∈ colors.
Proof.
  destruct (getPieChartData_slices (Some sampleEfficiency)) as (_ & Hsum & Hcol).
  split; [rewrite Hsum; reflexivity|].
  destruct (Hcol 1%nat (Pie.mk 1 (Some "#10b981") "Galaxy S21 Ultra") eq_refl)
    as [(c & Hc & Hin) _].
  exists c. injection Hc as <-. split; [reflexivity|exact Hin].
Defined.

Lemma string_app_empty_r (s : string) : s +:+ "" = s.
Proof.
  induction s as [|c s IH]; [reflexivity|].
  change (String c (s +:+ "") = String c s). by rewrite IH.
Qed.

Lemma substring_prefix (n : nat) (s : string) :
  String.length (String.substring 0 n s) = (n `min` String.length s)%nat
  ∧ ∃ rest, s = String.substring 0 n s +:+ rest.
Proof.
  revert s. induction n as [|n IH]; intros [|c s]; simpl.
  - split; [done|]. by exists "".
  - split; [done|]. by exists (String c s).
  - split; [done|]. by exists "".
  - destruct (IH s) as [Hlen [rest Hrest]]. split; [by rewrite Hlen|].
    exists rest.
    change (String c s = String c (String.substring 0 n s +:+ rest)).
    f_equal. exact Hrest.
Qed.

(** X14.  The bar chart has one bar per device of [averages], in the order
    of the entries (none when the data or [averages] is missing).  The label
    of a bar is the beginning of the device name, of at most eight
    characters, and the whole name when that is no longer; the value is an
    integer within half a minute of the average; the colour is one of the
    palette. *)
Theorem getBarChartData_bars (efficiencyData : option EfficiencyData) (i : nat) :
  length (getBarChartData efficiencyData)
  = length (default [] (efficiencyData ≫= averages))
  ∧ ∀ device avg,
      default [] (efficiencyData ≫= averages) !! i = Some (device, avg) →
      ∃ bar, getBarChartData efficiencyData !! i = Some bar
        ∧ (String.length (Bar.label bar) ≤ 8)%nat
        ∧ (∃ rest, device = Bar.label bar +:+ rest)
        ∧ ((String.length device ≤ 8)%nat → Bar.label bar = device)
        ∧ (avg - (1 # 2) < inject_Z (Bar.value bar))%Q
        ∧ (inject_Z (Bar.value bar) <= avg + (1 # 2))%Q
        ∧ ∃ c, Bar.frontColor bar = Some c ∧ c ∈ colors.
Proof.
  unfold getBarChartData.
  destruct (efficiencyData ≫= averages) as [entries|]; simpl.
  2: { split; [done|]. intros device avg Hi. by rewrite lookup_nil in Hi. }
  split; [apply length_imap|].
  intros device avg Hi. eexists. rewrite list_lookup_imap, Hi. simpl.
  split; [reflexivity|]. simpl.
  destruct (substring_prefix 8 device) as [Hlen [rest Hrest]].
  split; [rewrite Hlen; lia|]. split; [by exists rest|].
  split.
  - intros Hshort. apply (f_equal String.length) in Hrest as Hl.
    rewrite string_app_length, Hlen in Hl.
    destruct rest; [|cbn [String.length] in Hl; lia].
    rewrite string_app_empty_r in Hrest. symmetry. exact Hrest.
  - unfold Math_round. split; [|split; [apply Qfloor_le|apply colorAt_palette]].
    pose proof (Qlt_floor (avg + (1 # 2))%Q) as Hlt.
    rewrite inject_Z_plus in Hlt.
    apply Qplus_lt_l with (z := 1%Q).
    eapply Qle_lt_trans; [|exact Hlt].
    ring_simplify. apply Qle_refl.
Qed.

Lemma getBarChartData_bars_witness :
  ∃ bar, getBarChartData (Some sampleEfficiency) !! 1%nat = Some bar
    ∧ Bar.label bar = "Galaxy S" ∧ Bar.value bar = 50.
Proof.
  destruct (getBarChartData_bars (Some sampleEfficiency) 1) as [_ Hbar].
  destruct (Hbar "Galaxy S21 Ultra" (50 # 1)%Q eq_refl) as (bar & Hlook & _).
  exists bar. split; [exact Hlook|].
  injection Hlook as <-. split; reflexivity.
Defined.
